(** * The check-in table row (src/components/CheckIn/TableRow.tsx)

    A shallow embedding of the [TableRow] component: its two event handlers,
    [markCheckIn] and [notify]/[generateTag], and the markup it returns.

    The component is written in TypeScript over a handful of host facilities:
    strings with [trim], truthiness, [typeof], [!==], [instanceof Error],
    promises with [then]/[catch], [async]/[await] inside [try]/[catch].  The
    module [JS] gives the fragment of those that the row uses; the module
    [Effects] gives a state-and-exception monad in which every call to a
    collaborator (toast, mutation, refetch, generator, URL, window) is
    recorded in a chronological log; the module [Row] is the component. *)

From Stdlib Require Import List Bool Arith NArith String Ascii Lia.
Import ListNotations.

Set Implicit Arguments.

(* ================================================================== *)
(** * The fragment of JavaScript used by the row *)
(* ================================================================== *)

Module JS.

(** A JavaScript string is a sequence of UTF-16 code units. *)
Definition js_string : Type := list N.

(** The code units of an ASCII literal. *)
Definition js (s : string) : js_string :=
  List.map N_of_ascii (list_ascii_of_string s).

(** ECMAScript [WhiteSpace] and [LineTerminator] code points: what
    [String.prototype.trim] strips. *)
Definition is_white_space (c : N) : bool :=
  ((c =? 0x0009) || (c =? 0x000A) || (c =? 0x000B) || (c =? 0x000C)
   || (c =? 0x000D) || (c =? 0x0020) || (c =? 0x00A0) || (c =? 0x1680)
   || ((0x2000 <=? c) && (c <=? 0x200A))
   || (c =? 0x2028) || (c =? 0x2029) || (c =? 0x202F) || (c =? 0x205F)
   || (c =? 0x3000) || (c =? 0xFEFF))%N.

Fixpoint trimStart (s : js_string) : js_string :=
  match s with
  | [] => []
  | c :: rest => if is_white_space c then trimStart rest else s
  end.

Definition trimEnd (s : js_string) : js_string :=
  rev (trimStart (rev s)).

(** [s.trim()] *)
Definition trim (s : js_string) : js_string := trimEnd (trimStart s).

(** An [Error] instance; only its [message] is ever read. *)
Record Error : Type := new_Error { message : js_string }.

(** The values a field of the row's props, or a thrown value, can be.
    [JObject] stands for any object that is not an [Error] (the check-in
    marker [{ _id, time }], say), named by a reference. *)
Inductive value : Type :=
| JUndefined
| JNull
| JBool (b : bool)
| JString (s : js_string)
| JObject (ref : N)
| JError (e : Error).

(** ToBoolean. *)
Definition truthy (v : value) : bool :=
  match v with
  | JUndefined | JNull => false
  | JBool b => b
  | JString s => match s with [] => false | _ :: _ => true end
  | JObject _ | JError _ => true
  end.

Definition typeof (v : value) : string :=
  match v with
  | JUndefined => "undefined"
  | JNull => "object"
  | JBool _ => "boolean"
  | JString _ => "string"
  | JObject _ | JError _ => "object"
  end.

(** [v !== null] *)
Definition strict_neq_null (v : value) : bool :=
  match v with
  | JNull => false
  | _ => true
  end.

(** [a || b] on strings: [a] when it is truthy (not empty), else [b]. *)
Definition or_else (a b : js_string) : js_string :=
  if truthy (JString a) then a else b.

(** The result of evaluating an expression or settling a promise: a value,
    or a thrown value (a rejection reason). *)
Inductive completion (A : Type) : Type :=
| Normal (a : A)
| Throw (reason : value).
Arguments Throw {A} reason.

(** [v.trim()]: the method exists on strings only. *)
Definition call_trim (v : value) : completion js_string :=
  match v with
  | JString s => Normal (trim s)
  | JUndefined =>
      Throw (JError (new_Error (js "Cannot read properties of undefined (reading 'trim')")))
  | JNull =>
      Throw (JError (new_Error (js "Cannot read properties of null (reading 'trim')")))
  | _ => Throw (JError (new_Error (js "data.name.trim is not a function")))
  end.

(** [v.message].  Reading a property of [undefined] or [null] throws; a
    boolean or a string has no such property, and [JObject] stands for
    objects without one: the result is [undefined], which a toast shows as
    empty content. *)
Definition get_message (v : value) : completion js_string :=
  match v with
  | JError e => Normal (message e)
  | JUndefined =>
      Throw (JError (new_Error (js "Cannot read properties of undefined (reading 'message')")))
  | JNull =>
      Throw (JError (new_Error (js "Cannot read properties of null (reading 'message')")))
  | _ => Normal []
  end.

End JS.
Export JS.

(* ================================================================== *)
(** * Effects: a log of collaborator calls, with exceptions *)
(* ================================================================== *)

Module Effects.

Section Monad.
(** [W] is everything a handler can observe or change. *)
Variable W : Type.

Definition M (A : Type) : Type := W -> completion A * W.

Definition ret {A} (a : A) : M A := fun w => (Normal a, w).

Definition bind {A B} (m : M A) (k : A -> M B) : M B :=
  fun w =>
    match m w with
    | (Normal a, w') => k a w'
    | (Throw v, w') => (Throw v, w')
    end.

(** [throw v] *)
Definition throw {A} (v : value) : M A := fun w => (Throw v, w).

(** [try { body } catch (e) { handler e }] *)
Definition try_catch {A} (body : M A) (handler : value -> M A) : M A :=
  fun w =>
    match body w with
    | (Normal a, w') => (Normal a, w')
    | (Throw v, w') => handler v w'
    end.

(** The completion of a pure host operation. *)
Definition lift {A} (c : completion A) : M A := fun w => (c, w).

Definition gets {A} (f : W -> A) : M A := fun w => (Normal (f w), w).

Definition modify (f : W -> W) : M unit := fun w => (Normal tt, f w).

(** A promise is run to its settlement: [Normal] is fulfilment and
    [Throw] is rejection.  [p.then(f)] runs [f] on fulfilment and passes
    a rejection on; [p.catch(h)] runs [h] on the rejection reason, also
    when it is [f] that threw; [await p] throws the rejection reason; an
    [async] function turns what its body throws into a rejection. *)
Definition promise_then {A B} (p : M A) (f : A -> M B) : M B := bind p f.
Definition promise_catch {A} (p : M A) (h : value -> M A) : M A :=
  try_catch p h.
Definition await {A} (p : M A) : M A := p.
Definition async {A} (body : M A) : M A := body.
End Monad.

Arguments ret {W A} a.
Arguments throw {W A} v.
Arguments lift {W A} c.

End Effects.
Export Effects.

Declare Scope js_scope.
Delimit Scope js_scope with js_.
Notation "x <- m ;; k" := (bind m (fun x => k))
  (at level 61, m at next level, right associativity) : js_scope.
Notation "m ;; k" := (bind m (fun _ => k))
  (at level 61, right associativity) : js_scope.
Open Scope js_scope.

(* ================================================================== *)
(** * The component *)
(* ================================================================== *)

(** [InterfaceSchemaInput]: one field input of the tag template. *)
Module Schema.
Inductive field_type : Type := text.
Inductive alignment_type : Type := center | left | right.
Record position_type : Type := { x : N; y : N }.

Record InterfaceSchemaInput : Type := {
  name : js_string;
  type : field_type;
  content : js_string;
  position : position_type;
  width : N;
  height : N;
  alignment : option alignment_type;
  fontSize : option N;
  dynamicFontSize : option bool
}.
End Schema.

Module Row.

(** Modelled from the spec: the declaration of [InterfaceTableCheckIn] in
    [./types] is not among the sources.  The record has the fields the spec
    lists and the component reads: [userId], [eventId], [name], and the
    check-in marker, which the component reads as [data.checkIn].  [name]
    and [checkIn] are kept as values, since the code tests the one for
    truthiness and with [typeof], and the other against [null]. *)
Record InterfaceTableCheckIn : Type := {
  userId : js_string;
  eventId : js_string;
  name : value;
  checkIn : value
}.

Definition ArrayBuffer : Type := list N.
Record Uint8Array : Type := { buffer : ArrayBuffer }.

(** [new Blob(blobParts, { type })] *)
Record Blob : Type := new_Blob { blobParts : list ArrayBuffer; mime : js_string }.

Inductive toast_type : Type := pending | success | error.

(** What the row does to the outside, in the order it does it.  A call is
    logged when it is made. *)
Inductive event : Type :=
| Toast (ty : toast_type) (content : js_string)
| CheckInMutation (variables_userId variables_eventId : js_string)
| Refetch
| Generate (inputs : list Schema.InterfaceSchemaInput)
| CreateObjectURL (blob : Blob)
| WindowOpen (url : js_string).

(** The answer of Apollo's mutate function: it fulfils, or it rejects with
    an [ApolloError], which is an [Error]. *)
Inductive mutation_outcome : Type :=
| MutationFulfilled
| MutationRejected (err : Error).

(** How the collaborators answer.  [generate] is called with the constant
    [tagTemplate] of [./tagTemplate] and the inputs; only the inputs vary, so
    its answer is given as a function of the inputs. *)
Record collaborators : Type := {
  checkInMutation : js_string -> js_string -> mutation_outcome;
  generate : list Schema.InterfaceSchemaInput -> completion Uint8Array;
  createObjectURL : Blob -> completion js_string;
  window_open : js_string -> completion unit
}.

(** The props object, which is an ordinary mutable object, and the log. *)
Record world : Type := { data : InterfaceTableCheckIn; log : list event }.

Definition emit (e : event) : M world unit :=
  modify (fun w => {| data := data w; log := log w ++ [e] |}).

(** ** Markup *)

Inductive handler : Type := on_markCheckIn | on_notify.
Inductive color_type : Type := color_default | color_success.

(** [<Button variant="contained" className="m-2 p-2" ...>label</Button>] *)
Record Button : Type := {
  disabled : bool;
  color : color_type;
  onClick : option handler;
  label : js_string
}.

Inductive element : Type :=
| div (children : list Button)
| button (b : Button).

Definition buttons (e : element) : list Button :=
  match e with
  | div children => children
  | button b => [b]
  end.

Definition has_onClick (h : handler) (b : Button) : bool :=
  match onClick b, h with
  | Some on_markCheckIn, on_markCheckIn => true
  | Some on_notify, on_notify => true
  | _, _ => false
  end.

(** The check-in affordance: a button that runs [markCheckIn]. *)
Definition shows_check_in (e : element) : bool :=
  existsb (has_onClick on_markCheckIn) (buttons e).

(** The tag-download affordance: a button that runs [notify]. *)
Definition shows_download (e : element) : bool :=
  existsb (has_onClick on_notify) (buttons e).

Section Component.
(** The translation function of [useTranslation], with its key prefix. *)
Variable t : js_string -> js_string.
Variable env : collaborators.

(** ** Collaborator calls *)

Definition toast_success (content : js_string) : M world unit :=
  emit (Toast success content).

Definition toast_error (content : js_string) : M world unit :=
  emit (Toast error content).

Definition refetch : M world unit := emit Refetch.

Definition call_checkInMutation (uid eid : js_string) : M world unit :=
  emit (CheckInMutation uid eid) ;;
  match checkInMutation env uid eid with
  | MutationFulfilled => ret tt
  | MutationRejected err => throw (JError err)
  end.

Definition call_generate (inputs : list Schema.InterfaceSchemaInput)
  : M world Uint8Array :=
  emit (Generate inputs) ;; lift (generate env inputs).

Definition call_createObjectURL (b : Blob) : M world js_string :=
  emit (CreateObjectURL b) ;; lift (createObjectURL env b).

Definition call_window_open (url : js_string) : M world unit :=
  emit (WindowOpen url) ;; lift (window_open env url).

(** Modelled from the spec: [toast.promise] belongs to react-toastify and
    is not among the sources.  It is the "combined three-phase
    pending->success/error wrapper around an asynchronous operation" that
    "drives exactly one pending-then-terminal emission": it shows the
    pending message, starts the operation, shows the success message when
    the operation's promise fulfils and the error message when it
    rejects, and hands back the operation's own promise. *)
Definition toast_promise {A} (operation : M world A)
    (pending_msg success_msg error_msg : js_string) : M world A :=
  fun w =>
    match (emit (Toast pending pending_msg) ;; operation) w with
    | (Normal a, w') => (Normal a, snd (emit (Toast success success_msg) w'))
    | (Throw v, w') => (Throw v, snd (emit (Toast error error_msg) w'))
    end.

(** ** [markCheckIn]

    The handler returns at once and leaves a promise chain behind; the
    completion of the computation below is the settlement of that chain, and
    [Throw] would be an unhandled rejection. *)

Definition markCheckIn : M world unit :=
  promise_catch
    (promise_then
       (uid <- gets (fun w => userId (data w)) ;;
        eid <- gets (fun w => eventId (data w)) ;;
        call_checkInMutation uid eid)
       (fun _ =>
          toast_success (t (js "checkedInSuccessfully")) ;;
          refetch))
    (fun err =>
       toast_error (t (js "errorCheckingIn")) ;;
       msg <- lift (get_message err) ;;
       toast_error msg).

(** ** [generateTag] *)

Definition data_name : M world value := gets (fun w => name (data w)).

(** [!data.name || typeof data.name !== 'string' || !data.name.trim()],
    evaluated left to right with short-circuit. *)
Definition name_is_invalid : M world bool :=
  v1 <- data_name ;;
  if negb (truthy v1) then ret true
  else
    v2 <- data_name ;;
    if negb (String.eqb (typeof v2) "string") then ret true
    else
      v3 <- data_name ;;
      s <- lift (call_trim v3) ;;
      ret (negb (truthy (JString s))).

(** The object pushed into [inputs]. *)
Definition tag_input (name_ content_ : js_string) : Schema.InterfaceSchemaInput :=
  {| Schema.name := name_;
     Schema.type := Schema.text;
     Schema.content := content_;
     Schema.position := {| Schema.x := 10; Schema.y := 20 |};
     Schema.width := 200;
     Schema.height := 50;
     Schema.alignment := Some Schema.center;
     Schema.fontSize := Some 12%N;
     Schema.dynamicFontSize := Some true |}.

(** The body of the [try] block. *)
Definition generateTag_try : M world unit :=
  let inputs : list Schema.InterfaceSchemaInput := [] in
  invalid <- name_is_invalid ;;
  if invalid then
    throw (JError (new_Error
             (or_else (t (js "invalidName")) (js "Invalid or empty name provided"))))
  else
    v1 <- data_name ;;
    name_ <- lift (call_trim v1) ;;
    v2 <- data_name ;;
    content_ <- lift (call_trim v2) ;;
    let inputs := inputs ++ [ tag_input name_ content_ ] in
    pdf <- await (call_generate inputs) ;;
    let blob := new_Blob [buffer pdf] (js "application/pdf") in
    url <- call_createObjectURL blob ;;
    call_window_open url.

(** The [catch] block; [error instanceof Error] holds of [JError] only. *)
Definition generateTag_catch (error : value) : M world unit :=
  let errorMessage :=
    match error with
    | JError e => message e
    | _ => js "Unknown error"
    end in
  toast_error (t (js "pdfGenerationError") ++ js ": " ++ errorMessage).

Definition generateTag : M world unit :=
  async (try_catch generateTag_try generateTag_catch).

(** ** [notify] *)

Definition notify : M world unit :=
  toast_promise generateTag
    (or_else (t (js "generatingPdf")) (js "Generating PDF..."))
    (or_else (t (js "pdfGenerated")) (js "PDF generated successfully!"))
    (or_else (t (js "pdfGenerationError")) (js "Error generating PDF!")).

(** ** The returned markup *)

Definition TableRow (d : InterfaceTableCheckIn) : element :=
  if strict_neq_null (checkIn d) then
    div [ {| disabled := true; color := color_default; onClick := None;
             label := or_else (t (js "checkedIn")) (js "Checked In") |};
          {| disabled := false; color := color_default; onClick := Some on_notify;
             label := or_else (t (js "downloadTag")) (js "Download Tag") |} ]
  else
    button {| disabled := false; color := color_success;
              onClick := Some on_markCheckIn;
              label := or_else (t (js "checkIn")) (js "Check In") |}.

End Component.

End Row.
Export Row.


(* ================================================================== *)
(** * Observations on a run *)
(* ================================================================== *)

Module Observe.

(** The events a computation adds to the log of the world it starts in. *)
Definition emitted {A} (m : M world A) (w : world) : list event :=
  skipn (List.length (log w)) (log (snd (m w))).

Definition is_toast (ty : toast_type) (e : event) : bool :=
  match e, ty with
  | Toast pending _, pending => true
  | Toast success _, success => true
  | Toast error _, error => true
  | _, _ => false
  end.

Definition is_refetch (e : event) : bool :=
  match e with Refetch => true | _ => false end.

Definition is_generate (e : event) : bool :=
  match e with Generate _ => true | _ => false end.

(** The delivery steps: obtaining the handle and opening it. *)
Definition is_delivery (e : event) : bool :=
  match e with CreateObjectURL _ | WindowOpen _ => true | _ => false end.

(** A terminal notification: a success or an error message. *)
Definition is_terminal (e : event) : bool :=
  is_toast success e || is_toast error e.

Definition count (p : event -> bool) (l : list event) : nat :=
  List.length (filter p l).

(** The inputs of each call of the Document Generator, in order. *)
Fixpoint generator_calls (l : list event) : list (list Schema.InterfaceSchemaInput) :=
  match l with
  | [] => []
  | Generate inputs :: rest => inputs :: generator_calls rest
  | _ :: rest => generator_calls rest
  end.

Definition delivery_steps (l : list event) : list event := filter is_delivery l.

(** A computation that leaves the props object as it found it. *)
Definition preserves_data {A} (m : M world A) : Prop :=
  forall w, data (snd (m w)) = data w.

(** The error thrown when the validation of [generateTag] fails. *)
Definition invalid_name_error (t : js_string -> js_string) : value :=
  JError (new_Error (or_else (t (js "invalidName")) (js "Invalid or empty name provided"))).

(** The message [generateTag] reports for a thrown value. *)
Definition reported_message (thrown : value) : js_string :=
  match thrown with
  | JError e => message e
  | _ => js "Unknown error"
  end.

(** The error notification [generateTag] emits for a thrown value: the
    generic text, a colon and a space, and the reported message. *)
Definition failure_report (t : js_string -> js_string) (thrown : value) : event :=
  Toast error (t (js "pdfGenerationError") ++ js ": " ++ reported_message thrown).

(** The spec's "not checked in" value: an absent or null marker. *)
Definition not_checked_in (v : value) : Prop := v = JUndefined \/ v = JNull.

(** The spec's "checked in" value: a marker that is there and is not null. *)
Definition checked_in (v : value) : Prop := v <> JUndefined /\ v <> JNull.

End Observe.
Export Observe.

(* ================================================================== *)
(** * Sample records and collaborators *)
(* ================================================================== *)

Module Samples.

(** i18next hands back the key when it has no translation for it. *)
Definition t_keys : js_string -> js_string := fun key => key.

Definition a_pdf : Uint8Array := {| buffer := [0x25; 0x50; 0x44; 0x46]%N |}.

(** Every collaborator succeeds. *)
Definition all_fine : collaborators :=
  {| checkInMutation := fun _ _ => MutationFulfilled;
     generate := fun _ => Normal a_pdf;
     createObjectURL := fun _ => Normal (js "blob:tag");
     window_open := fun _ => Normal tt |}.

(** The mutation is rejected. *)
Definition mutation_rejects : collaborators :=
  {| checkInMutation := fun _ _ => MutationRejected (new_Error (js "Network error"));
     generate := generate all_fine;
     createObjectURL := createObjectURL all_fine;
     window_open := window_open all_fine |}.

(** The generator rejects, as in the end-to-end scenario 3. *)
Definition generator_rejects : collaborators :=
  {| checkInMutation := checkInMutation all_fine;
     generate := fun _ => Throw (JError (new_Error (js "template malformed")));
     createObjectURL := createObjectURL all_fine;
     window_open := window_open all_fine |}.

(** The generator rejects with something that is not an [Error]. *)
Definition generator_rejects_with_string : collaborators :=
  {| checkInMutation := checkInMutation all_fine;
     generate := fun _ => Throw (JString (js "template malformed"));
     createObjectURL := createObjectURL all_fine;
     window_open := window_open all_fine |}.

(** The handle is made, and opening it throws. *)
Definition open_throws : collaborators :=
  {| checkInMutation := checkInMutation all_fine;
     generate := generate all_fine;
     createObjectURL := createObjectURL all_fine;
     window_open := fun _ => Throw (JError (new_Error (js "window.open failed"))) |}.

Definition bob : InterfaceTableCheckIn :=
  {| userId := js "u1"; eventId := js "e1";
     name := JString (js "Bob"); checkIn := JNull |}.

Definition carol : InterfaceTableCheckIn :=
  {| userId := js "u2"; eventId := js "e1";
     name := JString (js "Carol");
     checkIn := JObject 1 |}.

Definition alice_padded : InterfaceTableCheckIn :=
  {| userId := js "u3"; eventId := js "e1";
     name := JString (js "  Alice  ");
     checkIn := JObject 2 |}.

Definition blank_name : InterfaceTableCheckIn :=
  {| userId := js "u4"; eventId := js "e1";
     name := JString (js "   ");
     checkIn := JObject 3 |}.

(** A record whose check-in marker is absent. *)
Definition no_marker : InterfaceTableCheckIn :=
  {| userId := js "u5"; eventId := js "e1";
     name := JString (js "Dan"); checkIn := JUndefined |}.

Definition mount (d : InterfaceTableCheckIn) : world := {| data := d; log := [] |}.

End Samples.
Export Samples.

(* ================================================================== *)
(** * Counting the calls to each collaborator *)
(* ================================================================== *)

Module Calls.

Definition is_mutation (e : event) : bool :=
  match e with CheckInMutation _ _ => true | _ => false end.

Definition is_create_url (e : event) : bool :=
  match e with CreateObjectURL _ => true | _ => false end.

Definition is_window_open (e : event) : bool :=
  match e with WindowOpen _ => true | _ => false end.

(** A string with a code unit that is not white space. *)
Definition has_visible_char (s : js_string) : bool :=
  existsb (fun c => negb (is_white_space c)) s.

(** The labels of the rendered buttons. *)
Definition labels (e : element) : list js_string := List.map label (buttons e).

End Calls.
Export Calls.

(* ================================================================== *)
(** * Strings: what [trim] leaves *)
(* ================================================================== *)

Section Trim.

Lemma trimStart_white (s : js_string) :
  forallb is_white_space s = true -> trimStart s = [].
Proof.
  induction s as [|c rest IH]; cbn; [reflexivity|].
  intros H. apply andb_true_iff in H as [Hc Hrest].
  rewrite Hc. auto.
Qed.

Lemma trimStart_nil_white (s : js_string) :
  trimStart s = [] -> forallb is_white_space s = true.
Proof.
  induction s as [|c rest IH]; cbn; [reflexivity|].
  destruct (is_white_space c); [auto | discriminate].
Qed.

(** What [trimStart] leaves does not start with white space. *)
Lemma trimStart_head (s : js_string) c rest :
  trimStart s = c :: rest -> is_white_space c = false.
Proof.
  induction s as [|a s' IH]; cbn; [discriminate|].
  destruct (is_white_space a) eqn:Ha; [exact IH|].
  intros E. injection E as -> _. exact Ha.
Qed.

Lemma forallb_rev {A} (p : A -> bool) (l : list A) :
  forallb p (rev l) = forallb p l.
Proof.
  induction l as [|a l IH]; cbn; [reflexivity|].
  rewrite forallb_app, IH. cbn. rewrite andb_true_r. apply andb_comm.
Qed.

Lemma trim_white (s : js_string) :
  forallb is_white_space s = true -> trim s = [].
Proof.
  intros H. unfold trim, trimEnd. rewrite (trimStart_white s H). reflexivity.
Qed.

Lemma trim_nil_white (s : js_string) :
  trim s = [] -> forallb is_white_space s = true.
Proof.
  unfold trim, trimEnd. intros H.
  apply (f_equal (@rev N)) in H. rewrite rev_involutive in H. cbn in H.
  apply trimStart_nil_white in H. rewrite forallb_rev in H.
  destruct (trimStart s) as [|c rest] eqn:E.
  - now apply trimStart_nil_white.
  - apply trimStart_head in E. cbn in H. rewrite E in H. discriminate.
Qed.

(** A string trims to the empty string exactly when it is empty or all
    white space. *)
Lemma trim_nil_iff (s : js_string) :
  trim s = [] <-> forallb is_white_space s = true.
Proof. split; [apply trim_nil_white | apply trim_white]. Qed.

End Trim.

(* ================================================================== *)
(** * Reading the log *)
(* ================================================================== *)

Section Log.

Lemma emitted_intro {A} (m : M world A) (w : world) (l : list event) :
  log (snd (m w)) = log w ++ l -> emitted m w = l.
Proof.
  unfold emitted. intros ->.
  rewrite skipn_app, skipn_all, Nat.sub_diag. reflexivity.
Qed.

Lemma log_emit (e : event) (w : world) :
  emit e w = (Normal tt, {| data := data w; log := log w ++ [e] |}).
Proof. reflexivity. Qed.

End Log.

(* ================================================================== *)
(** * Run equations of the handlers *)
(* ================================================================== *)

Arguments trim : simpl never.
Arguments js : simpl never.

Section Runs.

Variable t : js_string -> js_string.
Variable env : collaborators.

Lemma markCheckIn_run (w : world) :
  markCheckIn t env w =
  (Normal tt,
   {| data := data w;
      log := log w ++
             CheckInMutation (userId (data w)) (eventId (data w)) ::
             match checkInMutation env (userId (data w)) (eventId (data w)) with
             | MutationFulfilled =>
                 [Toast success (t (js "checkedInSuccessfully")); Refetch]
             | MutationRejected err =>
                 [Toast error (t (js "errorCheckingIn")); Toast error (message err)]
             end |}).
Proof.
  unfold markCheckIn, promise_catch, promise_then, try_catch, bind, gets,
    call_checkInMutation, toast_success, toast_error, refetch, emit, modify,
    lift, ret, throw.
  cbn.
  destruct (checkInMutation env (userId (data w)) (eventId (data w))); cbn;
    repeat rewrite <- app_assoc; reflexivity.
Qed.

Lemma name_is_invalid_run (w : world) :
  name_is_invalid w =
  (Normal match name (data w) with
          | JString s => match trim s with [] => true | _ :: _ => false end
          | _ => true
          end, w).
Proof.
  unfold name_is_invalid, data_name, bind, gets, lift, ret.
  destruct (name (data w)) as [| |b|s|r|e] eqn:E; cbn; try reflexivity.
  - destruct b; cbn; rewrite ?E; reflexivity.
  - destruct s as [|c s']; cbn; [reflexivity|].
    rewrite E; cbn. rewrite E; cbn. destruct (trim (c :: s')); reflexivity.
  - rewrite E. reflexivity.
  - rewrite E. reflexivity.
Qed.

Lemma generateTag_try_not_string (w : world) :
  (forall s, name (data w) <> JString s) ->
  generateTag_try t env w = (Throw (invalid_name_error t), w).
Proof.
  intros H. unfold generateTag_try, bind. rewrite name_is_invalid_run.
  destruct (name (data w)); try reflexivity.
  now elim (H s).
Qed.

Lemma generateTag_try_blank (w : world) (s : js_string) :
  name (data w) = JString s -> trim s = [] ->
  generateTag_try t env w = (Throw (invalid_name_error t), w).
Proof.
  intros Hn Ht. unfold generateTag_try, bind.
  rewrite name_is_invalid_run, Hn, Ht. reflexivity.
Qed.

Lemma generateTag_try_valid (w : world) (s : js_string) :
  name (data w) = JString s -> trim s <> [] ->
  generateTag_try t env w =
  (pdf <- call_generate env [tag_input (trim s) (trim s)] ;;
   url <- call_createObjectURL env (new_Blob [buffer pdf] (js "application/pdf")) ;;
   call_window_open env url) w.
Proof.
  intros Hn Ht. unfold generateTag_try at 1, bind at 1.
  rewrite name_is_invalid_run, Hn.
  destruct (trim s) as [|c r] eqn:E; [congruence|].
  unfold data_name, await, bind, gets, lift. cbn. rewrite Hn. cbn.
  rewrite E. reflexivity.
Qed.

Lemma generateTag_catch_run (thrown : value) (w : world) :
  generateTag_catch t thrown w =
  (Normal tt, {| data := data w; log := log w ++ [failure_report t thrown] |}).
Proof. destruct thrown; reflexivity. Qed.

(** A record whose name does not pass the validation. *)
Lemma generateTag_run_invalid (w : world) :
  (forall s, name (data w) = JString s -> trim s = []) ->
  generateTag_try t env w = (Throw (invalid_name_error t), w) /\
  generateTag t env w =
  (Normal tt,
   {| data := data w; log := log w ++ [failure_report t (invalid_name_error t)] |}).
Proof.
  intros H.
  assert (E : generateTag_try t env w = (Throw (invalid_name_error t), w)).
  { destruct (name (data w)) as [| |b|s|r|e] eqn:En;
      try (apply generateTag_try_not_string; rewrite En; discriminate).
    apply generateTag_try_blank with s; auto. }
  split; [exact E|].
  unfold generateTag, async, try_catch. rewrite E.
  apply generateTag_catch_run.
Qed.

(** A record whose name passes the validation: the log tells how far the
    collaborators let the body go. *)
Lemma generateTag_run_valid (w : world) (s : js_string) :
  name (data w) = JString s -> trim s <> [] ->
  let inputs := [tag_input (trim s) (trim s)] in
  generateTag t env w =
  (Normal tt,
   {| data := data w;
      log := log w ++
        Generate inputs ::
        match generate env inputs with
        | Throw v => [failure_report t v]
        | Normal pdf =>
            let blob := new_Blob [buffer pdf] (js "application/pdf") in
            CreateObjectURL blob ::
            match createObjectURL env blob with
            | Throw v => [failure_report t v]
            | Normal url =>
                WindowOpen url ::
                match window_open env url with
                | Throw v => [failure_report t v]
                | Normal _ => []
                end
            end
        end |}).
Proof.
  intros Hn Ht inputs.
  unfold generateTag, async, try_catch.
  rewrite (generateTag_try_valid w Hn Ht). fold inputs.
  unfold bind, call_generate, call_createObjectURL, call_window_open, bind,
    emit, modify, lift.
  destruct (generate env inputs) as [pdf|v]; cbn.
  2:{ rewrite generateTag_catch_run. cbn. now rewrite <- app_assoc. }
  destruct (createObjectURL env _) as [url|v]; cbn.
  2:{ rewrite generateTag_catch_run. cbn. now rewrite <- !app_assoc. }
  destruct (window_open env url) as [[]|v]; cbn.
  2:{ rewrite generateTag_catch_run. cbn. now rewrite <- !app_assoc. }
  now rewrite <- !app_assoc.
Qed.

(** The outcome of the [try] block for a valid name. *)
Lemma generateTag_try_valid_outcome (w : world) (s : js_string) :
  name (data w) = JString s -> trim s <> [] ->
  let inputs := [tag_input (trim s) (trim s)] in
  fst (generateTag_try t env w) =
  match generate env inputs with
  | Throw v => Throw v
  | Normal pdf =>
      match createObjectURL env (new_Blob [buffer pdf] (js "application/pdf")) with
      | Throw v => Throw v
      | Normal url => window_open env url
      end
  end.
Proof.
  intros Hn Ht inputs.
  rewrite (generateTag_try_valid w Hn Ht). fold inputs.
  unfold bind, call_generate, call_createObjectURL, call_window_open, bind,
    emit, modify, lift.
  destruct (generate env inputs) as [pdf|v]; cbn; [|reflexivity].
  destruct (createObjectURL env _) as [url|v]; cbn; [|reflexivity].
  reflexivity.
Qed.

(** [notify]: the pending message, then [generateTag], then, as the promise
    of [generateTag] always fulfils, the success message. *)
Lemma notify_run (w : world) :
  let w1 := {| data := data w;
               log := log w ++ [Toast pending
                 (or_else (t (js "generatingPdf")) (js "Generating PDF..."))] |} in
  fst (generateTag t env w1) = Normal tt ->
  notify t env w =
  (Normal tt,
   {| data := data (snd (generateTag t env w1));
      log := log (snd (generateTag t env w1)) ++
             [Toast success
                (or_else (t (js "pdfGenerated")) (js "PDF generated successfully!"))] |}).
Proof.
  intros w1 H. unfold notify, toast_promise, bind, emit, modify. cbn.
  fold w1. destruct (generateTag t env w1) as [[[]|v] w2]; cbn in *.
  - reflexivity.
  - discriminate.
Qed.

End Runs.

(* ================================================================== *)
(** * What a run of [generateTag] emits *)
(* ================================================================== *)

Section Emitted.

Variable t : js_string -> js_string.
Variable env : collaborators.

(** Either the name fails the validation, or it is a string that does not
    trim to the empty string. *)
Lemma name_cases (d : InterfaceTableCheckIn) :
  (forall s, name d = JString s -> trim s = []) \/
  (exists s, name d = JString s /\ trim s <> []).
Proof.
  destruct (name d) as [| |b|s|r|e]; try (left; discriminate).
  destruct (trim s) as [|c r] eqn:E.
  - left. intros s' [= <-]. exact E.
  - right. exists s. split; [reflexivity | congruence].
Qed.

Lemma generateTag_emitted_invalid (w : world) :
  (forall s, name (data w) = JString s -> trim s = []) ->
  emitted (generateTag t env) w = [failure_report t (invalid_name_error t)].
Proof.
  intros H. apply emitted_intro.
  destruct (generateTag_run_invalid t env w H) as [_ ->]. reflexivity.
Qed.

Lemma generateTag_emitted_valid (w : world) (s : js_string) :
  name (data w) = JString s -> trim s <> [] ->
  emitted (generateTag t env) w =
  Generate [tag_input (trim s) (trim s)] ::
  match generate env [tag_input (trim s) (trim s)] with
  | Throw v => [failure_report t v]
  | Normal pdf =>
      CreateObjectURL (new_Blob [buffer pdf] (js "application/pdf")) ::
      match createObjectURL env (new_Blob [buffer pdf] (js "application/pdf")) with
      | Throw v => [failure_report t v]
      | Normal url =>
          WindowOpen url ::
          match window_open env url with
          | Throw v => [failure_report t v]
          | Normal _ => []
          end
      end
  end.
Proof.
  intros Hn Ht. apply emitted_intro.
  rewrite (generateTag_run_valid t env w Hn Ht). reflexivity.
Qed.

(** For a valid name the Document Generator is called once, with one field
    built from the trimmed name. *)
Lemma generator_calls_valid (w : world) (s : js_string) :
  name (data w) = JString s -> trim s <> [] ->
  generator_calls (emitted (generateTag t env) w) = [[tag_input (trim s) (trim s)]].
Proof.
  intros Hn Ht. rewrite (generateTag_emitted_valid w Hn Ht).
  cbn [generator_calls]. f_equal.
  destruct (generate env _) as [pdf|v]; [|reflexivity].
  cbn [generator_calls].
  destruct (createObjectURL env _) as [url|v]; [|reflexivity].
  cbn [generator_calls].
  destruct (window_open env url) as [[]|v]; reflexivity.
Qed.

(** The promise of [generateTag] fulfils, whatever happens inside. *)
Lemma generateTag_fulfils (w : world) : fst (generateTag t env w) = Normal tt.
Proof.
  destruct (name_cases (data w)) as [H | (s & Hn & Ht)].
  - destruct (generateTag_run_invalid t env w H) as [_ ->]. reflexivity.
  - rewrite (generateTag_run_valid t env w Hn Ht). reflexivity.
Qed.

(** The log after [generateTag] is the log before and what the run emits. *)
Lemma generateTag_log (w : world) :
  log (snd (generateTag t env w)) = log w ++ emitted (generateTag t env) w.
Proof.
  destruct (name_cases (data w)) as [H | (s & Hn & Ht)].
  - rewrite (generateTag_emitted_invalid w H).
    destruct (generateTag_run_invalid t env w H) as [_ ->]. reflexivity.
  - rewrite (generateTag_emitted_valid w Hn Ht).
    rewrite (generateTag_run_valid t env w Hn Ht). reflexivity.
Qed.

(** What [generateTag] emits is decided by the record, not by the log. *)
Lemma generateTag_emitted_data (w w' : world) :
  data w' = data w ->
  emitted (generateTag t env) w' = emitted (generateTag t env) w.
Proof.
  intros Hd.
  destruct (name_cases (data w)) as [H | (s & Hn & Ht)].
  - rewrite !generateTag_emitted_invalid; [reflexivity | exact H | now rewrite Hd].
  - rewrite (generateTag_emitted_valid w Hn Ht).
    apply generateTag_emitted_valid; [now rewrite Hd | exact Ht].
Qed.

(** What [notify] emits: the pending message, the events of [generateTag],
    the success message. *)
Lemma notify_emitted (w : world) :
  fst (notify t env w) = Normal tt /\
  emitted (notify t env) w =
  Toast pending (or_else (t (js "generatingPdf")) (js "Generating PDF...")) ::
  emitted (generateTag t env) w ++
  [Toast success (or_else (t (js "pdfGenerated")) (js "PDF generated successfully!"))].
Proof.
  pose proof (notify_run t env w) as R. cbn zeta in R.
  specialize (R (generateTag_fulfils _)).
  split; [now rewrite R|].
  apply emitted_intro. rewrite R. cbn [snd log].
  rewrite generateTag_log. cbn [log].
  rewrite (generateTag_emitted_data w); [|reflexivity].
  rewrite <- !app_assoc. reflexivity.
Qed.

End Emitted.

(* ================================================================== *)
(** * The props object is never written *)
(* ================================================================== *)

Section Frame.

Lemma preserves_ret {A} (a : A) : preserves_data (ret a).
Proof. intros w. reflexivity. Qed.

Lemma preserves_throw {A} (v : value) : preserves_data (@throw world A v).
Proof. intros w. reflexivity. Qed.

Lemma preserves_lift {A} (c : completion A) : preserves_data (lift c).
Proof. intros w. reflexivity. Qed.

Lemma preserves_gets {A} (f : world -> A) : preserves_data (gets f).
Proof. intros w. reflexivity. Qed.

Lemma preserves_emit (e : event) : preserves_data (emit e).
Proof. intros w. reflexivity. Qed.

Lemma preserves_bind {A B} (m : M world A) (k : A -> M world B) :
  preserves_data m -> (forall a, preserves_data (k a)) ->
  preserves_data (bind m k).
Proof.
  intros Hm Hk w. unfold bind. specialize (Hm w).
  destruct (m w) as [[a|v] w']; cbn in *.
  - now rewrite Hk.
  - exact Hm.
Qed.

Lemma preserves_try_catch {A} (body : M world A) (h : value -> M world A) :
  preserves_data body -> (forall v, preserves_data (h v)) ->
  preserves_data (try_catch body h).
Proof.
  intros Hb Hh w. unfold try_catch. specialize (Hb w).
  destruct (body w) as [[a|v] w']; cbn in *.
  - exact Hb.
  - now rewrite Hh.
Qed.

Lemma preserves_if {A} (b : bool) (m1 m2 : M world A) :
  preserves_data m1 -> preserves_data m2 ->
  preserves_data (if b then m1 else m2).
Proof. destruct b; auto. Qed.

Lemma preserves_toast_promise {A} (m : M world A) (p s e : js_string) :
  preserves_data m -> preserves_data (toast_promise m p s e).
Proof.
  intros Hm w. unfold toast_promise, bind. cbn.
  match goal with |- context [m ?w1] => specialize (Hm w1); destruct (m w1) as [[a|v] w'] end;
    cbn in *; exact Hm.
Qed.

Ltac frame :=
  repeat (intros; first
    [ apply preserves_bind | apply preserves_try_catch | apply preserves_if
    | apply preserves_toast_promise | apply preserves_emit
    | apply preserves_gets | apply preserves_lift | apply preserves_ret
    | apply preserves_throw ]).

Lemma markCheckIn_preserves t env : preserves_data (markCheckIn t env).
Proof.
  unfold markCheckIn, promise_catch, promise_then, call_checkInMutation,
    toast_success, toast_error, refetch.
  frame. destruct (checkInMutation env a a0); frame.
Qed.

Lemma generateTag_preserves t env : preserves_data (generateTag t env).
Proof.
  unfold generateTag, async, generateTag_try, generateTag_catch,
    name_is_invalid, data_name, await, call_generate, call_createObjectURL,
    call_window_open, toast_error.
  frame.
Qed.

Lemma notify_preserves t env : preserves_data (notify t env).
Proof. unfold notify. apply preserves_toast_promise, generateTag_preserves. Qed.

End Frame.

(* ================================================================== *)
(** * End-to-end scenarios *)
(* ================================================================== *)

(** Scenario 1: Bob is not checked in; the check-in button is shown, the
    mutation fulfils, the success message is shown and the refresh asked
    for; with the refreshed record the tag-download button is shown. *)
Example scenario_check_in :
  shows_check_in (TableRow t_keys bob) = true
  /\ emitted (markCheckIn t_keys all_fine) (mount bob) =
     [ CheckInMutation (js "u1") (js "e1");
       Toast success (js "checkedInSuccessfully");
       Refetch ]
  /\ shows_download
       (TableRow t_keys {| userId := userId bob; eventId := eventId bob;
                           name := name bob; checkIn := JObject 7 |}) = true.
Proof. repeat split. Qed.

(** The same click when the mutation is rejected. *)
Example scenario_check_in_rejected :
  emitted (markCheckIn t_keys mutation_rejects) (mount bob) =
  [ CheckInMutation (js "u1") (js "e1");
    Toast error (js "errorCheckingIn");
    Toast error (js "Network error") ].
Proof. reflexivity. Qed.

(** Scenario 2: Carol is checked in and every collaborator answers. *)
Example scenario_download :
  emitted (notify t_keys all_fine) (mount carol) =
  [ Toast pending (js "generatingPdf");
    Generate [tag_input (js "Carol") (js "Carol")];
    CreateObjectURL (new_Blob [buffer a_pdf] (js "application/pdf"));
    WindowOpen (js "blob:tag");
    Toast success (js "pdfGenerated") ].
Proof. reflexivity. Qed.

(* ================================================================== *)
(** * The notification wrapper *)
(* ================================================================== *)

(** C1 (the code departs from the claim).  The claim: one pending
    notification, then exactly one terminal notification, a success or an
    error and never both.  In the end-to-end scenario 3 (Carol is checked in
    and the generator rejects with "template malformed") and for a blank
    name, the run of [notify] shows the pending message, then the error
    message emitted by [generateTag] itself, and then the success message of
    the wrapper: two terminal notifications, an error and a success. *)
Theorem notify_reports_failure_and_success (t : js_string -> js_string) :
  emitted (notify t generator_rejects) (mount carol) =
    [ Toast pending (or_else (t (js "generatingPdf")) (js "Generating PDF..."));
      Generate [tag_input (js "Carol") (js "Carol")];
      Toast error (t (js "pdfGenerationError") ++ js ": " ++ js "template malformed");
      Toast success (or_else (t (js "pdfGenerated")) (js "PDF generated successfully!")) ]
  /\ count is_terminal (emitted (notify t generator_rejects) (mount carol)) = 2
  /\ emitted (notify t all_fine) (mount blank_name) =
    [ Toast pending (or_else (t (js "generatingPdf")) (js "Generating PDF..."));
      Toast error (t (js "pdfGenerationError") ++ js ": " ++
                   or_else (t (js "invalidName")) (js "Invalid or empty name provided"));
      Toast success (or_else (t (js "pdfGenerated")) (js "PDF generated successfully!")) ]
  /\ count is_terminal (emitted (notify t all_fine) (mount blank_name)) = 2.
Proof.
  assert (Hc : emitted (generateTag t generator_rejects) (mount carol) =
               [Generate [tag_input (js "Carol") (js "Carol")];
                failure_report t (JError (new_Error (js "template malformed")))]).
  { rewrite (@generateTag_emitted_valid t generator_rejects (mount carol) (js "Carol"));
      [reflexivity | reflexivity | vm_compute; discriminate]. }
  assert (Hb : emitted (generateTag t all_fine) (mount blank_name) =
               [failure_report t (invalid_name_error t)]).
  { apply generateTag_emitted_invalid. intros s [= <-]. reflexivity. }
  destruct (notify_emitted t generator_rejects (mount carol)) as [_ E1].
  destruct (notify_emitted t all_fine (mount blank_name)) as [_ E2].
  rewrite E1, E2, Hc, Hb. repeat split.
Qed.

(* ================================================================== *)
(** * Which affordance a record gets *)
(* ================================================================== *)

(** C2, counterexample.  A record without a check-in marker ([checkIn] is
    [undefined]) is "not checked in" in the words of the claim, and yet it
    gets the tag-download button and no check-in button, since
    [undefined !== null] holds. *)
Lemma absent_marker_gets_download :
  not_checked_in (checkIn no_marker)
  /\ shows_check_in (TableRow t_keys no_marker) = false
  /\ shows_download (TableRow t_keys no_marker) = true
  /\ ~ (forall t d,
          (shows_check_in (TableRow t d) = true <-> not_checked_in (checkIn d))
          /\ (shows_download (TableRow t d) = true <-> checked_in (checkIn d))
          /\ shows_download (TableRow t d) = negb (shows_check_in (TableRow t d))).
Proof.
  split; [left; reflexivity|]. split; [reflexivity|]. split; [reflexivity|].
  intros H. destruct (H t_keys no_marker) as [[_ H1] _].
  assert (E : shows_check_in (TableRow t_keys no_marker) = true)
    by (apply H1; left; reflexivity).
  discriminate E.
Qed.

(** C2, amended.  The check-in button is rendered exactly when [checkIn] is
    [null], the tag-download button exactly when [checkIn] is anything but
    [null] (an absent marker included), and every record gets exactly one of
    the two. *)
Theorem affordance_by_null_marker (t : js_string -> js_string)
    (d : InterfaceTableCheckIn) :
  (shows_check_in (TableRow t d) = true <-> checkIn d = JNull)
  /\ (shows_download (TableRow t d) = true <-> checkIn d <> JNull)
  /\ shows_download (TableRow t d) = negb (shows_check_in (TableRow t d)).
Proof.
  unfold TableRow.
  destruct (checkIn d); cbn; repeat split; intros; congruence.
Qed.

(* ================================================================== *)
(** * [markCheckIn] *)
(* ================================================================== *)

(** C3.  [markCheckIn] issues one mutation with the record's [userId] and
    [eventId].  When the mutation fulfils, it emits one success notification
    and then triggers the refresh once, and nothing else; when the mutation
    is rejected, it emits two error notifications, the generic one and then
    the message of the error, and triggers no refresh.  The record is the
    same afterwards. *)
Theorem markCheckIn_notifications (t : js_string -> js_string)
    (env : collaborators) (w : world) :
  let evs := emitted (markCheckIn t env) w in
  match checkInMutation env (userId (data w)) (eventId (data w)) with
  | MutationFulfilled =>
      evs = [ CheckInMutation (userId (data w)) (eventId (data w));
              Toast success (t (js "checkedInSuccessfully"));
              Refetch ]
      /\ count (is_toast success) evs = 1
      /\ count is_refetch evs = 1
      /\ count (is_toast error) evs = 0
  | MutationRejected err =>
      evs = [ CheckInMutation (userId (data w)) (eventId (data w));
              Toast error (t (js "errorCheckingIn"));
              Toast error (message err) ]
      /\ count (is_toast error) evs = 2
      /\ count is_refetch evs = 0
      /\ count (is_toast success) evs = 0
  end
  /\ data (snd (markCheckIn t env w)) = data w.
Proof.
  intros evs.
  assert (E : evs =
    CheckInMutation (userId (data w)) (eventId (data w)) ::
    match checkInMutation env (userId (data w)) (eventId (data w)) with
    | MutationFulfilled => [Toast success (t (js "checkedInSuccessfully")); Refetch]
    | MutationRejected err =>
        [Toast error (t (js "errorCheckingIn")); Toast error (message err)]
    end).
  { apply emitted_intro. rewrite markCheckIn_run. reflexivity. }
  split; [|apply markCheckIn_preserves].
  destruct (checkInMutation env (userId (data w)) (eventId (data w)));
    rewrite E; repeat split.
Qed.

(* ================================================================== *)
(** * [generateTag]: validation and field construction *)
(* ================================================================== *)

(** C4.  When the name is the empty string or white space only, the [try]
    block of [generateTag] throws the validation error with the world
    untouched, so before anything was attempted; the whole run emits the
    error notification and nothing else: the Document Generator is not
    called, and no delivery step runs. *)
Theorem generateTag_blank_name_fails_validation (t : js_string -> js_string)
    (env : collaborators) (w : world) (s : js_string) :
  name (data w) = JString s ->
  forallb is_white_space s = true ->
  generateTag_try t env w =
    (Throw (JError (new_Error
       (or_else (t (js "invalidName")) (js "Invalid or empty name provided")))), w)
  /\ emitted (generateTag t env) w =
    [ Toast error (t (js "pdfGenerationError") ++ js ": " ++
                   or_else (t (js "invalidName")) (js "Invalid or empty name provided")) ]
  /\ generator_calls (emitted (generateTag t env) w) = []
  /\ delivery_steps (emitted (generateTag t env) w) = [].
Proof.
  intros Hn Hs.
  assert (H : forall s', name (data w) = JString s' -> trim s' = []).
  { intros s' Hs'. rewrite Hn in Hs'. injection Hs' as <-. now apply trim_white. }
  destruct (generateTag_run_invalid t env w H) as [Htry _].
  rewrite (generateTag_emitted_invalid t env w H).
  repeat split. exact Htry.
Qed.

(** C4 at a name of three spaces and at the empty name. *)
Lemma generateTag_blank_name_fails_validation_witness :
  generator_calls (emitted (generateTag t_keys all_fine) (mount blank_name)) = []
  /\ emitted (generateTag t_keys all_fine) (mount (
       {| userId := js "u6"; eventId := js "e1"; name := JString []; checkIn := JObject 4 |})) =
     [ Toast error (js "pdfGenerationError: invalidName") ].
Proof.
  split.
  - apply (@generateTag_blank_name_fails_validation
             t_keys all_fine (mount blank_name) (js "   "));
      reflexivity.
  - apply (@generateTag_blank_name_fails_validation t_keys all_fine
             (mount {| userId := js "u6"; eventId := js "e1";
                       name := JString []; checkIn := JObject 4 |}) []);
      reflexivity.
Defined.

(** C5.  When the name does not trim to the empty string, [generateTag]
    calls the Document Generator once, with exactly one field input: a text
    field whose content (and name) is the trimmed name, centred, with font
    size 12 and dynamic font size switched on, at position (10, 20) and of
    size 200 by 50. *)
Theorem generateTag_builds_one_trimmed_field (t : js_string -> js_string)
    (env : collaborators) (w : world) (s : js_string) :
  name (data w) = JString s ->
  trim s <> [] ->
  exists field,
    generator_calls (emitted (generateTag t env) w) = [[field]]
    /\ Schema.content field = trim s
    /\ Schema.name field = trim s
    /\ Schema.type field = Schema.text
    /\ Schema.alignment field = Some Schema.center
    /\ Schema.fontSize field = Some 12%N
    /\ Schema.dynamicFontSize field = Some true
    /\ Schema.position field = {| Schema.x := 10; Schema.y := 20 |}
    /\ Schema.width field = 200%N
    /\ Schema.height field = 50%N.
Proof.
  intros Hn Ht. exists (tag_input (trim s) (trim s)).
  rewrite (generator_calls_valid t env w Hn Ht).
  repeat split.
Qed.

(** C5 at the name "  Alice  ": the content of the field is "Alice". *)
Lemma generateTag_builds_one_trimmed_field_witness :
  exists field,
    generator_calls (emitted (generateTag t_keys all_fine) (mount alice_padded)) = [[field]]
    /\ Schema.content field = js "Alice".
Proof.
  destruct (@generateTag_builds_one_trimmed_field
              t_keys all_fine (mount alice_padded) (js "  Alice  "))
    as (field & Hcalls & Hcontent & _).
  - reflexivity.
  - vm_compute. discriminate.
  - exists field. split; [exact Hcalls | exact Hcontent].
Defined.

(** C8.  For a record with a valid name, a second [generateTag] on the
    unchanged record, also under other translations, other answers of the
    collaborators and another log, hands the Document Generator the same
    inputs as the first: one field built from the trimmed name.  In
    particular this holds for the world the first call leaves behind. *)
Theorem generateTag_inputs_deterministic (t t' : js_string -> js_string)
    (env env' : collaborators) (w w' : world) (s : js_string) :
  name (data w) = JString s ->
  trim s <> [] ->
  data w' = data w ->
  generator_calls (emitted (generateTag t env) w) = [[tag_input (trim s) (trim s)]]
  /\ generator_calls (emitted (generateTag t' env') w') =
     generator_calls (emitted (generateTag t env) w)
  /\ generator_calls (emitted (generateTag t' env') (snd (generateTag t env w))) =
     generator_calls (emitted (generateTag t env) w).
Proof.
  intros Hn Ht Hd.
  assert (G : forall t0 env0 w0, data w0 = data w ->
            generator_calls (emitted (generateTag t0 env0) w0) =
            [[tag_input (trim s) (trim s)]]).
  { intros t0 env0 w0 H0.
    apply generator_calls_valid; [now rewrite H0 | exact Ht]. }
  rewrite (G t env w eq_refl), (G t' env' w' Hd).
  rewrite (G t' env' _ (generateTag_preserves t env w)).
  repeat split.
Qed.

(** C8 for Carol: a second call, with other translations and a generator
    that now rejects, passes the inputs of the first. *)
Lemma generateTag_inputs_deterministic_witness :
  generator_calls (emitted (generateTag t_keys generator_rejects)
                     (snd (generateTag (fun _ => []) all_fine (mount carol)))) =
  generator_calls (emitted (generateTag (fun _ => []) all_fine) (mount carol)).
Proof.
  apply (@generateTag_inputs_deterministic (fun _ => []) t_keys all_fine
           generator_rejects (mount carol) (mount carol) (js "Carol")).
  - reflexivity.
  - vm_compute. discriminate.
  - reflexivity.
Defined.

(* ================================================================== *)
(** * [generateTag]: failures *)
(* ================================================================== *)

(** C6, counterexample.  Carol is checked in, the generator answers, the
    handle is made, and opening it throws: the invocation fails, and yet the
    handle was produced and the open step did run. *)
Lemma open_failure_comes_after_handle :
  fst (generateTag_try t_keys open_throws (mount carol)) =
    Throw (JError (new_Error (js "window.open failed")))
  /\ emitted (generateTag t_keys open_throws) (mount carol) =
    [ Generate [tag_input (js "Carol") (js "Carol")];
      CreateObjectURL (new_Blob [buffer a_pdf] (js "application/pdf"));
      WindowOpen (js "blob:tag");
      Toast error (js "pdfGenerationError: window.open failed") ]
  /\ ~ (forall t env w thrown,
          fst (generateTag_try t env w) = Throw thrown ->
          (exists before,
             emitted (generateTag t env) w =
             before ++ [Toast error (t (js "pdfGenerationError") ++ js ": " ++
                                     reported_message thrown)])
          /\ delivery_steps (emitted (generateTag t env) w) = []).
Proof.
  split; [reflexivity|]. split; [reflexivity|].
  intros H.
  destruct (H t_keys open_throws (mount carol)
              (JError (new_Error (js "window.open failed"))) eq_refl) as [_ E].
  vm_compute in E. discriminate E.
Qed.

(** C6, amended.  When the [try] block of [generateTag] throws, the run ends
    with one error notification, the only terminal notification of the run,
    whose text is the generic text, a colon and a space, and the message of
    the thrown error ("Unknown error" when what was thrown is not an Error).
    Either no delivery step ran, and that is so whenever the generator was
    not called or rejected; or the handle was asked for and that call threw;
    or the handle was made, the open step ran, and it is the open step that
    threw. *)
Theorem generateTag_failure_report (t : js_string -> js_string)
    (env : collaborators) (w : world) (thrown : value) :
  fst (generateTag_try t env w) = Throw thrown ->
  let evs := emitted (generateTag t env) w in
  (exists before,
     evs = before ++ [Toast error (t (js "pdfGenerationError") ++ js ": " ++
                                   match thrown with
                                   | JError e => message e
                                   | _ => js "Unknown error"
                                   end)]
     /\ count is_terminal before = 0)
  /\ (delivery_steps evs = []
      \/ (exists blob,
            delivery_steps evs = [CreateObjectURL blob]
            /\ createObjectURL env blob = Throw thrown)
      \/ (exists blob url,
            delivery_steps evs = [CreateObjectURL blob; WindowOpen url]
            /\ createObjectURL env blob = Normal url
            /\ window_open env url = Throw thrown))
  /\ (generator_calls evs = [] -> delivery_steps evs = [])
  /\ (forall inputs reason,
        In inputs (generator_calls evs) -> generate env inputs = Throw reason ->
        delivery_steps evs = []).
Proof.
  intros Hthrow evs.
  destruct (name_cases (data w)) as [H | (s & Hn & Ht)].
  - (* validation *)
    destruct (generateTag_run_invalid t env w H) as [Htry _].
    rewrite Htry in Hthrow. cbn in Hthrow. injection Hthrow as <-.
    subst evs. rewrite (generateTag_emitted_invalid t env w H).
    split; [exists []; split; reflexivity|].
    split; [left; reflexivity|].
    split; [reflexivity|]. intros inputs reason [].
  - (* generation and delivery *)
    pose proof (generateTag_try_valid_outcome t env w Hn Ht) as Hout.
    cbn zeta in Hout. rewrite Hout in Hthrow. clear Hout.
    subst evs. rewrite (generateTag_emitted_valid t env w Hn Ht).
    destruct (generate env _) as [pdf|v] eqn:Eg.
    2:{ injection Hthrow as ->.
        split; [exists [Generate [tag_input (trim s) (trim s)]]; split; reflexivity|].
        split; [left; reflexivity|].
        split; reflexivity. }
    destruct (createObjectURL env _) as [url|v] eqn:Eu.
    2:{ injection Hthrow as ->.
        split; [eexists [_; _]; split; reflexivity|].
        split; [right; left; eexists; split; [reflexivity | exact Eu]|].
        split; [discriminate|].
        intros inputs reason [<- | []] Hr. congruence. }
    destruct (window_open env url) as [[]|v] eqn:Eo; [discriminate|].
    injection Hthrow as ->.
    split; [eexists [_; _; _]; split; reflexivity|].
    split; [right; right; eexists; eexists; split; [reflexivity | split; [exact Eu | exact Eo]]|].
    split; [discriminate|].
    intros inputs reason [<- | []] Hr. congruence.
Qed.

(** C6, amended, in scenario 3, where the generator rejects with an Error,
    and when it rejects with a plain string. *)
Lemma generateTag_failure_report_witness :
  (exists before,
     emitted (generateTag t_keys generator_rejects) (mount carol) =
     before ++ [Toast error (js "pdfGenerationError: template malformed")]
     /\ count is_terminal before = 0)
  /\ (exists before,
     emitted (generateTag t_keys generator_rejects_with_string) (mount carol) =
     before ++ [Toast error (js "pdfGenerationError: Unknown error")]
     /\ count is_terminal before = 0).
Proof.
  split.
  - apply (@generateTag_failure_report t_keys generator_rejects (mount carol)
             (JError (new_Error (js "template malformed")))).
    reflexivity.
  - apply (@generateTag_failure_report t_keys generator_rejects_with_string
             (mount carol) (JString (js "template malformed"))).
    reflexivity.
Defined.

(* ================================================================== *)
(** * Nothing escapes, nothing is written *)
(* ================================================================== *)

(** C7.  Whatever the collaborators answer, the promise chain of
    [markCheckIn] and the promise of [generateTag] end fulfilled: nothing
    thrown or rejected is left unhandled.  A rejected mutation is turned into
    error notifications (two of them), a throwing [try] block of
    [generateTag] into one, and a run without a failure emits none.  The
    record is the same afterwards, so the row renders the same button and the
    user can try again. *)
Theorem handlers_catch_every_failure (t : js_string -> js_string)
    (env : collaborators) (w : world) :
  fst (markCheckIn t env w) = Normal tt
  /\ fst (generateTag t env w) = Normal tt
  /\ count (is_toast error) (emitted (markCheckIn t env) w) =
     match checkInMutation env (userId (data w)) (eventId (data w)) with
     | MutationFulfilled => 0
     | MutationRejected _ => 2
     end
  /\ count (is_toast error) (emitted (generateTag t env) w) =
     match fst (generateTag_try t env w) with
     | Normal _ => 0
     | Throw _ => 1
     end
  /\ TableRow t (data (snd (markCheckIn t env w))) = TableRow t (data w)
  /\ TableRow t (data (snd (generateTag t env w))) = TableRow t (data w).
Proof.
  split; [now rewrite markCheckIn_run|].
  split; [apply generateTag_fulfils|].
  split.
  { erewrite emitted_intro by (rewrite markCheckIn_run; reflexivity).
    destruct (checkInMutation env _ _); reflexivity. }
  split.
  { destruct (name_cases (data w)) as [H | (s & Hn & Ht)].
    - destruct (generateTag_run_invalid t env w H) as [-> _].
      rewrite (generateTag_emitted_invalid t env w H). reflexivity.
    - pose proof (generateTag_try_valid_outcome t env w Hn Ht) as Hout.
      cbn zeta in Hout. rewrite Hout.
      rewrite (generateTag_emitted_valid t env w Hn Ht).
      destruct (generate env _) as [pdf|v]; [|reflexivity].
      destruct (createObjectURL env _) as [url|v]; [|reflexivity].
      destruct (window_open env url) as [[]|v]; reflexivity. }
  split.
  - now rewrite markCheckIn_preserves.
  - now rewrite generateTag_preserves.
Qed.

(** C9.  [markCheckIn], [generateTag] and [notify] leave the record as they
    found it, field by field, whatever the collaborators answer. *)
Theorem handlers_do_not_write_the_record (t : js_string -> js_string)
    (env : collaborators) (w : world) :
  let after_check_in := data (snd (markCheckIn t env w)) in
  let after_tag := data (snd (generateTag t env w)) in
  let after_notify := data (snd (notify t env w)) in
  (userId after_check_in = userId (data w)
   /\ eventId after_check_in = eventId (data w)
   /\ name after_check_in = name (data w)
   /\ checkIn after_check_in = checkIn (data w))
  /\ (userId after_tag = userId (data w)
      /\ eventId after_tag = eventId (data w)
      /\ name after_tag = name (data w)
      /\ checkIn after_tag = checkIn (data w))
  /\ after_check_in = data w
  /\ after_tag = data w
  /\ after_notify = data w.
Proof.
  cbn zeta.
  rewrite (markCheckIn_preserves t env w), (generateTag_preserves t env w),
    (notify_preserves t env w).
  repeat split.
Qed.

(** C10.  The promise of [generateTag] always fulfils.  When its [try] block
    throws, [generateTag] itself emits one error notification, with the
    message of the Error, or "Unknown error" for any other thrown value, and
    otherwise none.  So the wrapper in [notify] never sees a rejection: its
    promise fulfils too, and around the events of [generateTag] it emits the
    pending message and the success message, never its own error message. *)
Theorem generateTag_never_rejects (t : js_string -> js_string)
    (env : collaborators) (w : world) :
  fst (generateTag t env w) = Normal tt
  /\ filter (is_toast error) (emitted (generateTag t env) w) =
     match fst (generateTag_try t env w) with
     | Normal _ => []
     | Throw (JError e) =>
         [Toast error (t (js "pdfGenerationError") ++ js ": " ++ message e)]
     | Throw _ =>
         [Toast error (t (js "pdfGenerationError") ++ js ": " ++ js "Unknown error")]
     end
  /\ fst (notify t env w) = Normal tt
  /\ emitted (notify t env) w =
     Toast pending (or_else (t (js "generatingPdf")) (js "Generating PDF...")) ::
     emitted (generateTag t env) w ++
     [Toast success (or_else (t (js "pdfGenerated")) (js "PDF generated successfully!"))].
Proof.
  split; [apply generateTag_fulfils|].
  split; [|apply notify_emitted].
  destruct (name_cases (data w)) as [H | (s & Hn & Ht)].
  - destruct (generateTag_run_invalid t env w H) as [-> _].
    rewrite (generateTag_emitted_invalid t env w H). reflexivity.
  - pose proof (generateTag_try_valid_outcome t env w Hn Ht) as Hout.
    cbn zeta in Hout. rewrite Hout.
    rewrite (generateTag_emitted_valid t env w Hn Ht).
    destruct (generate env _) as [pdf|v]; [|destruct v; reflexivity].
    destruct (createObjectURL env _) as [url|v]; [|destruct v; reflexivity].
    destruct (window_open env url) as [[]|v]; [reflexivity | destruct v; reflexivity].
Qed.

(* ================================================================== *)
(** * More on [trim] *)
(* ================================================================== *)

Section TrimShape.

(** [trimStart] drops a prefix of white space and nothing else. *)
Lemma trimStart_split (s : js_string) :
  exists pre, s = pre ++ trimStart s /\ forallb is_white_space pre = true.
Proof.
  induction s as [|c rest (pre & E & Hpre)].
  - exists []. split; reflexivity.
  - cbn [trimStart]. destruct (is_white_space c) eqn:Hc.
    + exists (c :: pre). cbn. rewrite Hc, Hpre. split; [now f_equal | reflexivity].
    + exists []. split; reflexivity.
Qed.

(** [trimEnd] drops a suffix of white space and nothing else. *)
Lemma trimEnd_split (s : js_string) :
  exists post, s = trimEnd s ++ post /\ forallb is_white_space post = true.
Proof.
  unfold trimEnd. destruct (trimStart_split (rev s)) as (pre & E & Hpre).
  exists (rev pre). split.
  - rewrite <- rev_app_distr, <- E. symmetry. apply rev_involutive.
  - now rewrite forallb_rev.
Qed.

(** A list that does not start with white space is left alone. *)
Lemma trimStart_fixed (s : js_string) :
  (forall c rest, s = c :: rest -> is_white_space c = false) ->
  trimStart s = s.
Proof.
  destruct s as [|c rest]; [reflexivity|].
  intros H. cbn. now rewrite (H c rest eq_refl).
Qed.

Lemma trim_head (s : js_string) c rest :
  trim s = c :: rest -> is_white_space c = false.
Proof.
  intros E. destruct (trimEnd_split (trimStart s)) as (post & Hs & _).
  fold (trim s) in Hs. rewrite E in Hs. cbn in Hs.
  exact (trimStart_head s Hs).
Qed.

Lemma trim_last (s : js_string) c front :
  trim s = front ++ [c] -> is_white_space c = false.
Proof.
  intros E. apply (f_equal (@rev N)) in E.
  unfold trim, trimEnd in E. rewrite rev_involutive, rev_app_distr in E.
  cbn in E. exact (trimStart_head _ E).
Qed.

Lemma trim_idempotent (s : js_string) : trim (trim s) = trim s.
Proof.
  assert (H1 : trimStart (trim s) = trim s).
  { apply trimStart_fixed. intros c rest. apply trim_head. }
  unfold trim at 1. rewrite H1. unfold trimEnd.
  rewrite trimStart_fixed; [apply rev_involutive|].
  intros c rest E. apply (@trim_last s c (rev rest)).
  rewrite <- (rev_involutive (trim s)), E. reflexivity.
Qed.

(** A string keeps something after [trim] exactly when it has a code unit
    that is not white space. *)
Lemma trim_keeps_visible (s : js_string) :
  trim s <> [] <-> has_visible_char s = true.
Proof.
  unfold has_visible_char. rewrite trim_nil_iff.
  induction s as [|c rest IH]; cbn.
  - split; [congruence | discriminate].
  - destruct (is_white_space c); cbn.
    + exact IH.
    + split; [reflexivity | discriminate].
Qed.

End TrimShape.

(* ================================================================== *)
(** * Which names pass the validation *)
(* ================================================================== *)

(** X1.  A name that is not a string (undefined, null, a boolean, an
    object) is stopped by the first two tests of the guard: the [try] block
    throws the invalid-name error before anything is logged, [trim] is never
    called on the value, and the run emits the report of that error and
    nothing else. *)
Theorem generateTag_rejects_non_string_name (t : js_string -> js_string)
    (env : collaborators) (w : world) :
  (forall s, name (data w) <> JString s) ->
  generateTag_try t env w =
    (Throw (JError (new_Error
       (or_else (t (js "invalidName")) (js "Invalid or empty name provided")))), w)
  /\ emitted (generateTag t env) w =
    [ Toast error (t (js "pdfGenerationError") ++ js ": " ++
                   or_else (t (js "invalidName")) (js "Invalid or empty name provided")) ].
Proof.
  intros H. split.
  - apply generateTag_try_not_string. exact H.
  - apply generateTag_emitted_invalid. intros s Hs. now elim (H s).
Qed.

(** X1 at a record without a name and at one whose name is an object. *)
Lemma generateTag_rejects_non_string_name_witness :
  emitted (generateTag t_keys all_fine)
    (mount {| userId := js "u7"; eventId := js "e1";
              name := JUndefined; checkIn := JObject 5 |}) =
    [ Toast error (js "pdfGenerationError: invalidName") ]
  /\ emitted (generateTag (fun _ => []) all_fine)
    (mount {| userId := js "u8"; eventId := js "e1";
              name := JObject 9; checkIn := JObject 6 |}) =
    [ Toast error (js ": Invalid or empty name provided") ].
Proof.
  split.
  - apply (@generateTag_rejects_non_string_name t_keys all_fine
             (mount {| userId := js "u7"; eventId := js "e1";
                       name := JUndefined; checkIn := JObject 5 |})).
    intros s. discriminate.
  - apply (@generateTag_rejects_non_string_name (fun _ => []) all_fine
             (mount {| userId := js "u8"; eventId := js "e1";
                       name := JObject 9; checkIn := JObject 6 |})).
    intros s. discriminate.
Defined.

(** X2.  The Document Generator is called exactly when the name is a string
    with at least one code unit that is not white space, and then once, with
    the one field built from the trimmed name; for every other name it is
    not called at all. *)
Theorem generator_called_iff_visible_name (t : js_string -> js_string)
    (env : collaborators) (w : world) :
  generator_calls (emitted (generateTag t env) w) =
  match name (data w) with
  | JString s =>
      if has_visible_char s then [[tag_input (trim s) (trim s)]] else []
  | _ => []
  end.
Proof.
  destruct (name_cases (data w)) as [H | (s & Hn & Ht)].
  - rewrite (generateTag_emitted_invalid t env w H). cbn.
    destruct (name (data w)) as [| |b|s|r|e]; try reflexivity.
    destruct (has_visible_char s) eqn:Hv; [|reflexivity].
    apply trim_keeps_visible in Hv. now elim Hv; apply H.
  - rewrite (generator_calls_valid t env w Hn Ht), Hn.
    apply trim_keeps_visible in Ht. now rewrite Ht.
Qed.

(** X3.  For a valid name, the content of the field is the name with white
    space removed at both ends and nothing else: the name is a run of white
    space, the content, and a run of white space, and the content neither
    starts nor ends with white space. *)
Theorem field_content_is_the_core_of_the_name (t : js_string -> js_string)
    (env : collaborators) (w : world) (s : js_string) :
  name (data w) = JString s ->
  trim s <> [] ->
  exists field pre post,
    generator_calls (emitted (generateTag t env) w) = [[field]]
    /\ s = pre ++ Schema.content field ++ post
    /\ forallb is_white_space pre = true
    /\ forallb is_white_space post = true
    /\ (forall c rest, Schema.content field = c :: rest -> is_white_space c = false)
    /\ (forall c front, Schema.content field = front ++ [c] -> is_white_space c = false).
Proof.
  intros Hn Ht.
  destruct (trimStart_split s) as (pre & Epre & Hpre).
  destruct (trimEnd_split (trimStart s)) as (post & Epost & Hpost).
  exists (tag_input (trim s) (trim s)), pre, post.
  rewrite (generator_calls_valid t env w Hn Ht). cbn [Schema.content tag_input].
  split; [reflexivity|].
  split; [unfold trim; now rewrite <- Epost|].
  split; [exact Hpre|]. split; [exact Hpost|].
  split; [intros c rest; apply trim_head | intros c front; apply trim_last].
Qed.

(** X3 at the name "  Alice  ". *)
Lemma field_content_is_the_core_of_the_name_witness :
  exists field pre post,
    generator_calls (emitted (generateTag t_keys all_fine) (mount alice_padded)) = [[field]]
    /\ js "  Alice  " = pre ++ Schema.content field ++ post
    /\ forallb is_white_space pre = true
    /\ forallb is_white_space post = true.
Proof.
  destruct (@field_content_is_the_core_of_the_name
              t_keys all_fine (mount alice_padded) (js "  Alice  "))
    as (field & pre & post & H1 & H2 & H3 & H4 & _).
  - reflexivity.
  - vm_compute. discriminate.
  - exists field, pre, post. repeat split; assumption.
Defined.

(** X4.  Trimming is idempotent on the way to the generator: a record whose
    name is already the content of the field built from a valid name yields
    the very same inputs. *)
Theorem trimmed_name_gives_same_inputs (t : js_string -> js_string)
    (env : collaborators) (w w' : world) (s : js_string) :
  name (data w) = JString s ->
  trim s <> [] ->
  name (data w') = JString (trim s) ->
  generator_calls (emitted (generateTag t env) w') =
  generator_calls (emitted (generateTag t env) w).
Proof.
  intros Hn Ht Hn'.
  rewrite (generator_calls_valid t env w Hn Ht).
  rewrite (generator_calls_valid t env w' Hn'); rewrite trim_idempotent;
    [reflexivity | exact Ht].
Qed.

(** X4 for "  Alice  " and "Alice". *)
Lemma trimmed_name_gives_same_inputs_witness :
  generator_calls (emitted (generateTag t_keys all_fine)
    (mount {| userId := js "u3"; eventId := js "e1";
              name := JString (js "Alice"); checkIn := JObject 2 |})) =
  generator_calls (emitted (generateTag t_keys all_fine) (mount alice_padded)).
Proof.
  apply (@trimmed_name_gives_same_inputs t_keys all_fine (mount alice_padded)
           (mount {| userId := js "u3"; eventId := js "e1";
                     name := JString (js "Alice"); checkIn := JObject 2 |})
           (js "  Alice  ")).
  - reflexivity.
  - vm_compute. discriminate.
  - reflexivity.
Defined.

(* ================================================================== *)
(** * Calls to the collaborators: order, number, provenance *)
(* ================================================================== *)

Section CallLemmas.

Variable t : js_string -> js_string.
Variable env : collaborators.

Lemma markCheckIn_emitted (w : world) :
  emitted (markCheckIn t env) w =
  CheckInMutation (userId (data w)) (eventId (data w)) ::
  match checkInMutation env (userId (data w)) (eventId (data w)) with
  | MutationFulfilled => [Toast success (t (js "checkedInSuccessfully")); Refetch]
  | MutationRejected err =>
      [Toast error (t (js "errorCheckingIn")); Toast error (message err)]
  end.
Proof. apply emitted_intro. rewrite markCheckIn_run. reflexivity. Qed.

Lemma markCheckIn_log (w : world) :
  log (snd (markCheckIn t env w)) = log w ++ emitted (markCheckIn t env) w.
Proof. rewrite markCheckIn_emitted, markCheckIn_run. reflexivity. Qed.

Lemma notify_log (w : world) :
  log (snd (notify t env w)) = log w ++ emitted (notify t env) w.
Proof.
  destruct (notify_emitted t env w) as [_ ->].
  pose proof (notify_run t env w) as R. cbn zeta in R.
  rewrite (R (generateTag_fulfils _ _ _)). cbn [snd log].
  rewrite generateTag_log. cbn [log].
  rewrite (generateTag_emitted_data t env w); [|reflexivity].
  rewrite <- !app_assoc. reflexivity.
Qed.

(** Two handlers run one after the other, the second once the first has
    settled: the events of the first, then those of the second. *)
Lemma emitted_seq (m1 m2 : M world unit) (w : world) :
  fst (m1 w) = Normal tt ->
  log (snd (m1 w)) = log w ++ emitted m1 w ->
  log (snd (m2 (snd (m1 w)))) = log (snd (m1 w)) ++ emitted m2 (snd (m1 w)) ->
  emitted (m1 ;; m2) w = emitted m1 w ++ emitted m2 (snd (m1 w)).
Proof.
  intros Hok H1 H2. apply emitted_intro.
  unfold bind. destruct (m1 w) as [[[]|v] w1] eqn:E; cbn in *; [|discriminate].
  rewrite H2, H1, <- app_assoc. reflexivity.
Qed.

Lemma markCheckIn_emitted_data (w w' : world) :
  data w' = data w ->
  emitted (markCheckIn t env) w' = emitted (markCheckIn t env) w.
Proof. intros H. rewrite !markCheckIn_emitted, H. reflexivity. Qed.

Lemma notify_emitted_data (w w' : world) :
  data w' = data w ->
  emitted (notify t env) w' = emitted (notify t env) w.
Proof.
  intros H.
  destruct (notify_emitted t env w) as [_ ->].
  destruct (notify_emitted t env w') as [_ ->].
  now rewrite (generateTag_emitted_data t env w w' H).
Qed.

(** The three shapes of the events of [generateTag] for a valid name that
    reach the generator, in one place for case analysis. *)
Lemma generateTag_emitted_shape (w : world) :
  let evs := emitted (generateTag t env) w in
  (exists v, evs = [failure_report t v])
  \/ (exists inputs v, evs = [Generate inputs; failure_report t v])
  \/ (exists inputs b v, evs = [Generate inputs; CreateObjectURL b; failure_report t v])
  \/ (exists inputs b url v,
        evs = [Generate inputs; CreateObjectURL b; WindowOpen url; failure_report t v])
  \/ (exists inputs b url, evs = [Generate inputs; CreateObjectURL b; WindowOpen url]).
Proof.
  cbn zeta. destruct (name_cases (data w)) as [H | (s & Hn & Ht)].
  - left. rewrite (generateTag_emitted_invalid t env w H). eauto.
  - right. rewrite (generateTag_emitted_valid t env w Hn Ht).
    destruct (generate env _) as [pdf|v]; [|left; eauto].
    right. destruct (createObjectURL env _) as [url|v]; [|left; eauto].
    right. destruct (window_open env url) as [[]|v]; [right | left]; eauto.
Qed.

End CallLemmas.

(** X5.  Whenever [window.open] is called, it is called with the URL that
    [URL.createObjectURL] returned for a Blob of type application/pdf holding
    the buffer of the document the generator returned for the field of the
    trimmed name; and these three calls are the first three events of the
    run, in this order. *)
Theorem window_open_gets_the_created_url (t : js_string -> js_string)
    (env : collaborators) (w : world) (url : js_string) :
  In (WindowOpen url) (emitted (generateTag t env) w) ->
  exists s pdf rest,
    name (data w) = JString s
    /\ generate env [tag_input (trim s) (trim s)] = Normal pdf
    /\ createObjectURL env (new_Blob [buffer pdf] (js "application/pdf")) = Normal url
    /\ emitted (generateTag t env) w =
       Generate [tag_input (trim s) (trim s)] ::
       CreateObjectURL (new_Blob [buffer pdf] (js "application/pdf")) ::
       WindowOpen url :: rest.
Proof.
  destruct (name_cases (data w)) as [H | (s & Hn & Ht)].
  - rewrite (generateTag_emitted_invalid t env w H).
    intros [E | []]. discriminate E.
  - rewrite (generateTag_emitted_valid t env w Hn Ht).
    destruct (generate env _) as [pdf|v] eqn:Eg.
    2:{ intros [E | [E | []]]; discriminate E. }
    destruct (createObjectURL env _) as [u|v] eqn:Eu.
    2:{ intros [E | [E | [E | []]]]; discriminate E. }
    intros Hin.
    assert (u = url) as ->.
    { destruct Hin as [E | [E | [E | Hin]]]; try discriminate E.
      - now injection E.
      - destruct (window_open env u) as [[]|v]; [destruct Hin|].
        destruct Hin as [E | []]. discriminate E. }
    exists s, pdf. eexists. repeat split; try eassumption.
Qed.

(** X5 for Carol, when every collaborator answers. *)
Lemma window_open_gets_the_created_url_witness :
  exists s pdf rest,
    name carol = JString s
    /\ generate all_fine [tag_input (trim s) (trim s)] = Normal pdf
    /\ createObjectURL all_fine (new_Blob [buffer pdf] (js "application/pdf")) =
       Normal (js "blob:tag")
    /\ emitted (generateTag t_keys all_fine) (mount carol) =
       Generate [tag_input (trim s) (trim s)] ::
       CreateObjectURL (new_Blob [buffer pdf] (js "application/pdf")) ::
       WindowOpen (js "blob:tag") :: rest.
Proof.
  apply (@window_open_gets_the_created_url t_keys all_fine (mount carol) (js "blob:tag")).
  vm_compute. right. right. left. reflexivity.
Defined.

(** X6.  No retry and no shortcut: a run of [markCheckIn] issues exactly one
    mutation and at most one refresh; a run of [generateTag] calls the
    generator, [URL.createObjectURL] and [window.open] at most once each,
    and each of them only if the one before it was called. *)
Theorem each_collaborator_called_at_most_once (t : js_string -> js_string)
    (env : collaborators) (w : world) :
  count is_mutation (emitted (markCheckIn t env) w) = 1
  /\ count is_refetch (emitted (markCheckIn t env) w) <= 1
  /\ count is_window_open (emitted (generateTag t env) w)
     <= count is_create_url (emitted (generateTag t env) w)
  /\ count is_create_url (emitted (generateTag t env) w)
     <= count is_generate (emitted (generateTag t env) w)
  /\ count is_generate (emitted (generateTag t env) w) <= 1.
Proof.
  rewrite markCheckIn_emitted.
  split; [destruct (checkInMutation env _ _); reflexivity|].
  split; [destruct (checkInMutation env _ _); cbn; lia|].
  destruct (generateTag_emitted_shape t env w)
    as [(v & ->) | [(i & v & ->) | [(i & b & v & ->)
       | [(i & b & u & v & ->) | (i & b & u & ->)]]]];
    cbn; lia.
Qed.

(** X7.  The two handlers keep to their own collaborators: [notify] (and
    [generateTag] inside it) never issues the check-in mutation nor asks for
    a refresh, and [markCheckIn] never calls the generator, never makes or
    opens a handle and never shows a pending message. *)
Theorem handlers_keep_to_their_collaborators (t : js_string -> js_string)
    (env : collaborators) (w : world) :
  count is_mutation (emitted (notify t env) w) = 0
  /\ count is_refetch (emitted (notify t env) w) = 0
  /\ count is_generate (emitted (markCheckIn t env) w) = 0
  /\ count is_delivery (emitted (markCheckIn t env) w) = 0
  /\ count (is_toast pending) (emitted (markCheckIn t env) w) = 0.
Proof.
  destruct (notify_emitted t env w) as [_ ->].
  rewrite markCheckIn_emitted.
  assert (G : count is_mutation (emitted (generateTag t env) w) = 0
              /\ count is_refetch (emitted (generateTag t env) w) = 0).
  { destruct (generateTag_emitted_shape t env w)
      as [(v & ->) | [(i & v & ->) | [(i & b & v & ->)
         | [(i & b & u & v & ->) | (i & b & u & ->)]]]];
      split; reflexivity. }
  destruct G as [G1 G2]. unfold count in *. cbn [filter is_mutation is_refetch].
  rewrite !filter_app, !length_app, G1, G2.
  repeat split; try reflexivity;
    destruct (checkInMutation env _ _); reflexivity.
Qed.

(** X8.  Whatever happens inside, the events of [notify] start with its one
    pending message and end with its one success message; in between
    [generateTag] adds at most one error message. *)
Theorem notify_frames_the_run (t : js_string -> js_string)
    (env : collaborators) (w : world) :
  let evs := emitted (notify t env) w in
  hd_error evs =
    Some (Toast pending (or_else (t (js "generatingPdf")) (js "Generating PDF...")))
  /\ last evs Refetch =
    Toast success (or_else (t (js "pdfGenerated")) (js "PDF generated successfully!"))
  /\ count (is_toast pending) evs = 1
  /\ count (is_toast success) evs = 1
  /\ count (is_toast error) evs <= 1.
Proof.
  cbn zeta. destruct (notify_emitted t env w) as [_ ->].
  split; [reflexivity|].
  split; [cbn [last]; rewrite last_last;
          destruct (emitted (generateTag t env) w); reflexivity|].
  destruct (generateTag_emitted_shape t env w)
    as [(v & ->) | [(i & v & ->) | [(i & b & v & ->)
       | [(i & b & u & v & ->) | (i & b & u & ->)]]]];
    cbn; repeat split; lia.
Qed.

(* ================================================================== *)
(** * Clicking again *)
(* ================================================================== *)

(** X9.  Nothing guards against a second click on the check-in button: when
    [markCheckIn] runs again after the first run has settled, on the same
    record and whatever the service answers each time, the events of the
    second run simply follow those of the first, and two mutations have been
    issued, both with the record's [userId] and [eventId]. *)
Theorem second_check_in_click_issues_second_mutation
    (t : js_string -> js_string) (env env' : collaborators) (w : world) :
  emitted (markCheckIn t env ;; markCheckIn t env') w =
    emitted (markCheckIn t env) w ++ emitted (markCheckIn t env') w
  /\ filter is_mutation (emitted (markCheckIn t env ;; markCheckIn t env') w) =
    [ CheckInMutation (userId (data w)) (eventId (data w));
      CheckInMutation (userId (data w)) (eventId (data w)) ].
Proof.
  assert (E : emitted (markCheckIn t env ;; markCheckIn t env') w =
              emitted (markCheckIn t env) w ++ emitted (markCheckIn t env') w).
  { rewrite emitted_seq.
    - f_equal. apply markCheckIn_emitted_data, markCheckIn_preserves.
    - now rewrite markCheckIn_run.
    - apply markCheckIn_log.
    - apply markCheckIn_log. }
  split; [exact E|].
  rewrite E, !markCheckIn_emitted, filter_app.
  destruct (checkInMutation env _ _), (checkInMutation env' _ _); reflexivity.
Qed.

(** X10.  [notify] can be run again: a second run after the first, on the
    same record and whatever the collaborators answer each time, emits its
    own pending and success messages after the events of the first run, and
    calls the generator again rather than reusing the first document. *)
Theorem second_download_click_generates_again
    (t : js_string -> js_string) (env env' : collaborators) (w : world) :
  emitted (notify t env ;; notify t env') w =
    emitted (notify t env) w ++ emitted (notify t env') w
  /\ count (is_toast pending) (emitted (notify t env ;; notify t env') w) = 2
  /\ generator_calls (emitted (notify t env ;; notify t env') w) =
    generator_calls (emitted (generateTag t env) w) ++
    generator_calls (emitted (generateTag t env) w).
Proof.
  assert (E : emitted (notify t env ;; notify t env') w =
              emitted (notify t env) w ++ emitted (notify t env') w).
  { rewrite emitted_seq.
    - f_equal. apply notify_emitted_data, notify_preserves.
    - apply notify_emitted.
    - apply notify_log.
    - apply notify_log. }
  assert (P : forall e, count (is_toast pending) (emitted (notify t e) w) = 1).
  { intros e. destruct (notify_emitted t e w) as [_ ->].
    destruct (generateTag_emitted_shape t e w)
      as [(v & ->) | [(i & v & ->) | [(i & b & v & ->)
         | [(i & b & u & v & ->) | (i & b & u & ->)]]]]; reflexivity. }
  assert (G : forall l1 l2, generator_calls (l1 ++ l2) =
                            generator_calls l1 ++ generator_calls l2).
  { induction l1 as [|[] l1 IH]; intros l2; cbn; rewrite ?IH; reflexivity. }
  assert (C : forall e, generator_calls (emitted (notify t e) w) =
                        generator_calls (emitted (generateTag t env) w)).
  { intros e. destruct (notify_emitted t e w) as [_ ->].
    cbn [generator_calls]. rewrite G. cbn. rewrite app_nil_r.
    destruct (name_cases (data w)) as [H | (s & Hn & Ht)].
    - now rewrite !generateTag_emitted_invalid.
    - now rewrite !(generator_calls_valid _ _ w Hn Ht). }
  rewrite E. split; [reflexivity|]. split.
  - unfold count in *. rewrite filter_app, length_app. now rewrite !P.
  - now rewrite G, !C.
Qed.

(* ================================================================== *)
(** * Texts when a translation is missing *)
(* ================================================================== *)

Section Texts.

Lemma or_else_not_empty (a b : js_string) : b <> [] -> or_else a b <> [].
Proof. unfold or_else. destruct a; cbn; [auto | discriminate]. Qed.

End Texts.

(** X11.  No notification of a [notify] run has an empty text, whatever the
    translation function returns: the pending and the success message fall
    back to their English defaults, and the error report always holds the
    separator. *)
Theorem notify_texts_are_never_empty (t : js_string -> js_string)
    (env : collaborators) (w : world) (ty : toast_type) (content : js_string) :
  In (Toast ty content) (emitted (notify t env) w) ->
  content <> [].
Proof.
  destruct (notify_emitted t env w) as [_ ->].
  assert (R : forall v, failure_report t v <> Toast ty content \/ content <> []).
  { intros v. unfold failure_report.
    destruct (list_eq_dec N.eq_dec content []) as [->|]; [left | now right].
    intros [= _ E]. destruct (t (js "pdfGenerationError")); discriminate E. }
  intros [E | Hin].
  - injection E as _ <-. now apply or_else_not_empty.
  - apply in_app_or in Hin. destruct Hin as [Hin | [E | []]].
    2:{ injection E as _ <-. now apply or_else_not_empty. }
    destruct (generateTag_emitted_shape t env w)
      as [(v & Ev) | [(i & v & Ev) | [(i & b & v & Ev)
         | [(i & b & u & v & Ev) | (i & b & u & Ev)]]]];
      rewrite Ev in Hin; cbn in Hin;
      repeat (destruct Hin as [E | Hin]; [try discriminate E|]);
      try destruct Hin;
      destruct (R v) as [Hne | Hc]; auto; now elim Hne.
Qed.

(** X11 with no translation at all, for the success message. *)
Lemma notify_texts_are_never_empty_witness :
  js "PDF generated successfully!" <> [].
Proof.
  apply (@notify_texts_are_never_empty (fun _ => []) all_fine (mount carol) success).
  vm_compute. do 4 right. left. reflexivity.
Defined.

(** X12.  No button is rendered with an empty label: where the translation
    is empty, the labels are "Checked In" and "Download Tag" for a checked-in
    record and "Check In" otherwise. *)
Theorem button_labels_are_never_empty (t : js_string -> js_string)
    (d : InterfaceTableCheckIn) :
  Forall (fun l => l <> []) (labels (TableRow t d))
  /\ labels (TableRow (fun _ => []) d) =
     if strict_neq_null (checkIn d)
     then [js "Checked In"; js "Download Tag"]
     else [js "Check In"].
Proof.
  unfold TableRow, labels.
  destruct (strict_neq_null (checkIn d)); cbn; split; try reflexivity;
    repeat constructor; now apply or_else_not_empty.
Qed.
